(** * fomo_app front-end examples: [APIUsageExamples] and [EventListExample]

    A shallow embedding of
    [frontend/src/components/examples/APIUsageExamples.js] (the file also
    carries the [EventListExample] component).  The two React components
    call the axios helper [api] of [@/lib/api] and mirror the outcome of
    each call in local component state.

    - JSON values, and the fragment of JavaScript the handlers evaluate on
      them (property reads, optional chaining, [||], template literals).
    - The handlers, written in a state-and-exception monad [Js]: an
      [async] function is its synchronous prefix up to the [await]
      together with the continuation that runs when the awaited promise
      settles.
    - The event loop: a handler is invoked, or an in-flight request
      settles and its continuation runs to completion. *)

From Stdlib Require Import Ascii String ZArith.
From stdpp Require Import base option list strings pretty gmap.

Local Open Scope string_scope.

(** ** JSON values, as [JSON.parse] yields them *)

(** A number is an integer here; numbers with a fraction or an exponent
    are outside the model.  The fields of an object are kept in the order
    of the text, duplicates included. *)
#[warnings="-register-all"]
Inductive JSON : Type :=
| JNull
| JBool (b : bool)
| JNum (z : Z)
| JStr (s : string)
| JArr (items : list JSON)
| JObj (fields : list (string * JSON)).

(** A JavaScript value the handlers can hold: [None] is [undefined]. *)
Definition JsValue : Type := option JSON.

Definition undefined : JsValue := None.

(** ** Responses, errors, settled promises *)

(** The part of an axios response the components read. *)
Record Response : Type := { status : Z; data : JSON }.

(** An [Error] object: [error.message] and, for an axios error that
    carries the server's reply, [error.response]. *)
Record JsError : Type :=
  { error_message : string; error_response : option Response }.

(** What [await] sees of the promise returned by an [api] call. *)
Inductive Settled : Type :=
| Fulfilled (response : Response)
| Rejected (error : JsError).

Inductive Method : Type := GET | POST | PATCH | DELETE.

(** The arguments of one [api.get/post/patch/delete] call. *)
Record Request : Type :=
  { method : Method;
    path : string;
    body : option JSON;
    headers : list (string * string) }.

#[global] Instance Method_eq_dec : EqDecision Method.
Proof. solve_decision. Defined.

(** ** The JavaScript fragment *)

(** Number of UTF-16 code units of a string held as UTF-8 bytes: a
    continuation byte counts for nothing, the lead byte of a four-byte
    sequence for a surrogate pair. *)
Definition code_units (c : ascii) : nat :=
  match c with
  | Ascii _ _ _ _ _ _ false true => 0
  | Ascii _ _ _ false true true true true => 2
  | _ => 1
  end.

Fixpoint utf16_length (s : string) : nat :=
  match s with
  | EmptyString => 0
  | String c rest => code_units c + utf16_length rest
  end.

(** [ToString] on a JSON value, as a template literal applies it.
    [Array.prototype.join] prints [null] as the empty string.  The text
    is JavaScript's on [null], booleans, strings, integers up to
    [Number.MAX_SAFE_INTEGER] in absolute value, objects without a
    [toString] field of their own, and arrays of such values; larger
    numbers, which JavaScript rounds and from 10^21 on prints with an
    exponent, and objects that shadow [toString], on which the
    conversion throws, are outside the model. *)
Fixpoint json_to_string (v : JSON) : string :=
  match v with
  | JNull => "null"
  | JBool true => "true"
  | JBool false => "false"
  | JNum z => pretty z
  | JStr s => s
  | JArr items =>
      (fix join (l : list JSON) : string :=
         match l with
         | [] => ""
         | x :: rest =>
             match x with JNull => "" | _ => json_to_string x end
             +:+ match rest with [] => "" | _ :: _ => "," +:+ join rest end
         end) items
  | JObj _ => "[object Object]"
  end.

Definition to_string (v : JsValue) : string :=
  match v with
  | None => "undefined"
  | Some j => json_to_string j
  end.

(** [ToBoolean]. *)
Definition truthy (v : JsValue) : bool :=
  match v with
  | None | Some JNull | Some (JBool false) | Some (JNum 0%Z) | Some (JStr "") => false
  | Some _ => true
  end.

(** [a || b] *)
Definition js_or (a b : JsValue) : JsValue := if truthy a then a else b.

(** The property names the components read. *)
Inductive Key : Type := K_id | K_email | K_orderId | K_message | K_length.

Definition key_name (k : Key) : string :=
  match k with
  | K_id => "id"
  | K_email => "email"
  | K_orderId => "orderId"
  | K_message => "message"
  | K_length => "length"
  end.

(** The value of the last field named [k], as [JSON.parse] keeps it. *)
Fixpoint field (k : string) (fields : list (string * JSON)) : JsValue :=
  match fields with
  | [] => None
  | (k', v) :: rest =>
      match field k rest with
      | Some later => Some later
      | None => if decide (k' = k) then Some v else None
      end
  end.

(** [v.k] for a [v] that is neither [null] nor [undefined]. *)
Definition get (v : JSON) (k : Key) : JsValue :=
  match v, k with
  | JObj fields, _ => field (key_name k) fields
  | JArr items, K_length => Some (JNum (Z.of_nat (length items)))
  | JStr s, K_length => Some (JNum (Z.of_nat (utf16_length s)))
  | _, _ => None
  end.

(** The [TypeError] V8 raises on [null.k]. *)
Definition TypeError_null (k : Key) : JsError :=
  {| error_message :=
       "Cannot read properties of null (reading '" +:+ key_name k +:+ "')";
     error_response := None |}.

(** [v.k]: the value, or the [TypeError] thrown. *)
Definition member (v : JSON) (k : Key) : JsError + JsValue :=
  match v with
  | JNull => inl (TypeError_null k)
  | _ => inr (get v k)
  end.

(** [v?.k] *)
Definition opt_member (v : JsValue) (k : Key) : JsValue :=
  match v with
  | None | Some JNull => None
  | Some j => get j k
  end.

(** [error.response?.data] *)
Definition response_data (error : JsError) : JsValue :=
  data <$> error_response error.

(** ** The JavaScript fragment of the render functions *)

(** The [TypeError] V8 raises on [null.name]. *)
Definition TypeError_reading (name : string) : JsError :=
  {| error_message :=
       "Cannot read properties of null (reading '" +:+ name +:+ "')";
     error_response := None |}.

(** The [TypeError] V8 raises on a call of something that is no
    function. *)
Definition TypeError_not_a_function (callee : string) : JsError :=
  {| error_message := callee +:+ " is not a function";
     error_response := None |}.

(** [v.name] on a [v] other than [null], for a name that no prototype
    defines ([id], [title], [description], [location], [date],
    [price]): only an object can have it. *)
Definition plain (v : JSON) (name : string) : JsValue :=
  match v with
  | JObj fields => field name fields
  | _ => None
  end.

(** [v.name] for such a name: the value, or the [TypeError] thrown. *)
Definition own (v : JSON) (name : string) : JsError + JsValue :=
  match v with
  | JNull => inl (TypeError_reading name)
  | _ => inr (plain v name)
  end.

(** Sequencing of evaluations that may throw. *)
Definition and_then {A B} (r : JsError + A) (k : A -> JsError + B)
  : JsError + B :=
  match r with
  | inl error => inl error
  | inr a => k a
  end.

(** [Array.prototype.map]: the callback runs on each item in order, and
    the first exception ends the loop. *)
Fixpoint map_items {A} (callback : JSON -> JsError + A) (items : list JSON)
  : JsError + list A :=
  match items with
  | [] => inr []
  | item :: rest =>
      and_then (callback item) (fun a =>
      and_then (map_items callback rest) (fun others =>
      inr (a :: others)))
  end.

(** [v.map(callback)] on a JSON value held in the variable [name]: only
    an array has a [map] that is a function. *)
Definition array_map {A} (name : string) (v : JSON)
    (callback : JSON -> JsError + A) : JsError + list A :=
  match v with
  | JNull => inl (TypeError_reading "map")
  | JArr items => map_items callback items
  | _ => inl (TypeError_not_a_function (name +:+ ".map"))
  end.

(** [Number.MAX_SAFE_INTEGER]: up to it every integer is a number of its
    own and prints as its decimal digits. *)
Definition MAX_SAFE_INTEGER : Z := 9007199254740991.

(** [v === 0] *)
Definition is_zero (v : JsValue) : bool :=
  match v with
  | Some (JNum 0%Z) => true
  | _ => false
  end.

(** * [APIUsageExamples] *)

Module APIUsageExamples.

(** ** Component state: the three [useState] cells *)

Record State : Type := { events : JSON; loading : bool; message : string }.

Definition useState_initial : State :=
  {| events := JArr []; loading := false; message := "" |}.

(** The [async] functions of the component. *)
Inductive Handler : Type :=
| FetchEvents | CreateEvent | UpdateEvent | DeleteEvent | FetchWithAuth | SubmitOrder.

(** What a handler does to the outside, in order; [Settle] is written by
    the event loop when the promise of request [n] settles. *)
Inductive Effect : Type :=
| SetEvents (v : JSON)
| SetLoading (b : bool)
| SetMessage (s : string)
| ConsoleError (label : string) (error : JsError)
| Dispatch (n : nat) (req : Request)
| Settle (n : nat) (o : Settled).

(** The component as the event loop sees it: its state, everything it did
    so far, and the handlers suspended on a request still in flight. *)
Record World : Type :=
  { view : State;
    trace : list Effect;
    inflight : gmap nat Handler;
    next_id : nat }.

(** ** The monad of handler code: state and exceptions *)

Inductive Completion (A : Type) : Type :=
| Normal (a : A)
| Throw (error : JsError).
Arguments Normal {A} a.
Arguments Throw {A} error.

Definition Js (A : Type) : Type := World -> Completion A * World.

#[global] Instance Js_ret : MRet Js := fun A a w => (Normal a, w).

#[global] Instance Js_bind : MBind Js := fun A B k m w =>
  match m w with
  | (Normal a, w') => k a w'
  | (Throw error, w') => (Throw error, w')
  end.

Definition throw {A} (error : JsError) : Js A := fun w => (Throw error, w).

(** [try { body } catch (error) { handler } finally { final }] *)
Definition try_catch_finally {A}
    (body : Js A) (handler : JsError -> Js A) (final : Js unit) : Js A :=
  fun w =>
    let (c, w1) :=
      match body w with
      | (Normal a, w') => (Normal a, w')
      | (Throw error, w') => handler error w'
      end in
    match final w1 with
    | (Normal _, w2) => (c, w2)
    | (Throw error, w2) => (Throw error, w2)
    end.

(** A state setter: the cell changes and the call is recorded. *)
Definition set (f : State -> State) (e : Effect) : Js unit := fun w =>
  (Normal tt,
   {| view := f (view w); trace := trace w ++ [e];
      inflight := inflight w; next_id := next_id w |}).

Definition setEvents (v : JSON) : Js unit :=
  set (fun s => {| events := v; loading := loading s; message := message s |})
      (SetEvents v).

Definition setLoading (b : bool) : Js unit :=
  set (fun s => {| events := events s; loading := b; message := message s |})
      (SetLoading b).

Definition setMessage (m : string) : Js unit :=
  set (fun s => {| events := events s; loading := loading s; message := m |})
      (SetMessage m).

Definition console_error (label : string) (error : JsError) : Js unit :=
  set (fun s => s) (ConsoleError label error).

(** [await api.<method>(...)] reached by handler [h]: the request goes out
    under a fresh number and [h] is suspended on it. *)
Definition api_call (h : Handler) (req : Request) : Js unit := fun w =>
  (Normal tt,
   {| view := view w; trace := trace w ++ [Dispatch (next_id w) req];
      inflight := <[next_id w := h]> (inflight w); next_id := S (next_id w) |}).

(** The [await] resumed: the response, or the rejection thrown. *)
Definition await (o : Settled) : Js Response :=
  match o with
  | Fulfilled response => mret response
  | Rejected error => throw error
  end.

(** A property read that may throw. *)
Definition read (r : JsError + JsValue) : Js JsValue :=
  match r with
  | inl error => throw error
  | inr v => mret v
  end.

(** [error.response?.data?.message || error.message] *)
Definition server_message_or_own (error : JsError) : JsValue :=
  js_or (opt_member (response_data error) K_message)
        (Some (JStr (error_message error))).

(** ** The handlers *)

(** Example 1: GET - Fetch all events *)
Definition fetchEvents_request : Request :=
  {| method := GET; path := "/events"; body := None; headers := [] |}.

Definition fetchEvents : Js unit :=
  setLoading true;;
  setMessage "";;
  api_call FetchEvents fetchEvents_request.

Definition fetchEvents_resume (o : Settled) : Js unit :=
  try_catch_finally
    (response ← await o;
     setEvents (data response);;
     n ← read (member (data response) K_length);
     setMessage ("✅ Fetched " +:+ to_string n +:+ " events"))
    (fun error =>
       console_error "Error fetching events:" error;;
       setMessage ("❌ Error: " +:+ error_message error))
    (setLoading false).

(** Example 2: POST - Create a new event; [now] is
    [new Date().toISOString()]. *)
Definition newEvent (now : string) : JSON :=
  JObj [("title", JStr "Test Event");
        ("description", JStr "This is a test event created via API");
        ("date", JStr now);
        ("location", JStr "Nairobi, Kenya");
        ("category", JStr "Technology");
        ("price", JNum 1000);
        ("capacity", JNum 100);
        ("organizerId", JStr "test-organizer-id")].

Definition createEvent_request (now : string) : Request :=
  {| method := POST; path := "/events"; body := Some (newEvent now);
     headers := [] |}.

Definition createEvent (now : string) : Js unit :=
  setLoading true;;
  setMessage "";;
  api_call CreateEvent (createEvent_request now).

Definition createEvent_resume (o : Settled) : Js unit :=
  try_catch_finally
    (response ← await o;
     created ← read (member (data response) K_id);
     setMessage ("✅ Event created with ID: " +:+ to_string created);;
     fetchEvents)
    (fun error =>
       console_error "Error creating event:" error;;
       setMessage ("❌ Error: " +:+ to_string (server_message_or_own error)))
    (setLoading false).

(** Example 3: PATCH - Update an event *)
Definition updates : JSON :=
  JObj [("title", JStr "Updated Event Title");
        ("description", JStr "This event has been updated")].

Definition updateEvent_request (eventId : JsValue) : Request :=
  {| method := PATCH; path := "/events/" +:+ to_string eventId;
     body := Some updates; headers := [] |}.

Definition updateEvent (eventId : JsValue) : Js unit :=
  setLoading true;;
  setMessage "";;
  api_call UpdateEvent (updateEvent_request eventId).

Definition updateEvent_resume (o : Settled) : Js unit :=
  try_catch_finally
    (response ← await o;
     setMessage "✅ Event updated successfully";;
     fetchEvents)
    (fun error =>
       console_error "Error updating event:" error;;
       setMessage ("❌ Error: " +:+ to_string (server_message_or_own error)))
    (setLoading false).

(** Example 4: DELETE - Delete an event *)
Definition deleteEvent_request (eventId : JsValue) : Request :=
  {| method := DELETE; path := "/events/" +:+ to_string eventId;
     body := None; headers := [] |}.

Definition deleteEvent (eventId : JsValue) : Js unit :=
  setLoading true;;
  setMessage "";;
  api_call DeleteEvent (deleteEvent_request eventId).

Definition deleteEvent_resume (o : Settled) : Js unit :=
  try_catch_finally
    (_ ← await o;
     setMessage "✅ Event deleted successfully";;
     fetchEvents)
    (fun error =>
       console_error "Error deleting event:" error;;
       setMessage ("❌ Error: " +:+ to_string (server_message_or_own error)))
    (setLoading false).

(** Example 5: GET with authentication token *)
Definition fetchWithAuth_request (token : JsValue) : Request :=
  {| method := GET; path := "/auth/user"; body := None;
     headers := [("Authorization", "Bearer " +:+ to_string token)] |}.

Definition fetchWithAuth (token : JsValue) : Js unit :=
  setLoading true;;
  setMessage "";;
  api_call FetchWithAuth (fetchWithAuth_request token).

Definition fetchWithAuth_resume (o : Settled) : Js unit :=
  try_catch_finally
    (response ← await o;
     address ← read (member (data response) K_email);
     setMessage ("✅ User data fetched: " +:+ to_string address))
    (fun error =>
       console_error "Error fetching user:" error;;
       setMessage ("❌ Error: " +:+ to_string (server_message_or_own error)))
    (setLoading false).

(** Example 6: POST with custom headers *)
Definition orderData : JSON :=
  JObj [("userId", JStr "user-123");
        ("cartItems",
         JArr [JObj [("eventId", JStr "event-1");
                     ("quantity", JNum 2);
                     ("pricePerTicket", JNum 1000)]]);
        ("customerEmail", JStr "test@example.com");
        ("customerName", JStr "Test User");
        ("customerPhone", JStr "254712345678")].

Definition submitOrder_request : Request :=
  {| method := POST; path := "/orders"; body := Some orderData;
     headers := [("X-Custom-Header", "custom-value")] |}.

Definition submitOrder : Js unit :=
  setLoading true;;
  setMessage "";;
  api_call SubmitOrder submitOrder_request.

Definition submitOrder_resume (o : Settled) : Js unit :=
  try_catch_finally
    (response ← await o;
     order ← read (member (data response) K_orderId);
     setMessage ("✅ Order created: " +:+ to_string order))
    (fun error =>
       console_error "Error creating order:" error;;
       setMessage ("❌ Error: " +:+ to_string (server_message_or_own error)))
    (setLoading false).

(** ** The event loop *)

(** A call of a handler, with its argument. *)
Inductive Call : Type :=
| CallFetchEvents
| CallCreateEvent (now : string)
| CallUpdateEvent (eventId : JsValue)
| CallDeleteEvent (eventId : JsValue)
| CallFetchWithAuth (token : JsValue)
| CallSubmitOrder.

Definition invoke (c : Call) : Js unit :=
  match c with
  | CallFetchEvents => fetchEvents
  | CallCreateEvent now => createEvent now
  | CallUpdateEvent eventId => updateEvent eventId
  | CallDeleteEvent eventId => deleteEvent eventId
  | CallFetchWithAuth token => fetchWithAuth token
  | CallSubmitOrder => submitOrder
  end.

Definition handler_of (c : Call) : Handler :=
  match c with
  | CallFetchEvents => FetchEvents
  | CallCreateEvent _ => CreateEvent
  | CallUpdateEvent _ => UpdateEvent
  | CallDeleteEvent _ => DeleteEvent
  | CallFetchWithAuth _ => FetchWithAuth
  | CallSubmitOrder => SubmitOrder
  end.

Definition request_of (c : Call) : Request :=
  match c with
  | CallFetchEvents => fetchEvents_request
  | CallCreateEvent now => createEvent_request now
  | CallUpdateEvent eventId => updateEvent_request eventId
  | CallDeleteEvent eventId => deleteEvent_request eventId
  | CallFetchWithAuth token => fetchWithAuth_request token
  | CallSubmitOrder => submitOrder_request
  end.

Definition resume (h : Handler) (o : Settled) : Js unit :=
  match h with
  | FetchEvents => fetchEvents_resume o
  | CreateEvent => createEvent_resume o
  | UpdateEvent => updateEvent_resume o
  | DeleteEvent => deleteEvent_resume o
  | FetchWithAuth => fetchWithAuth_resume o
  | SubmitOrder => submitOrder_resume o
  end.

(** The promise of request [n] settles: the handler suspended on it runs
    to its end.  A promise settles once; a number that is not in flight
    is ignored. *)
Definition settle (n : nat) (o : Settled) : Js unit := fun w =>
  match inflight w !! n with
  | Some h =>
      resume h o
        {| view := view w; trace := trace w ++ [Settle n o];
           inflight := delete n (inflight w); next_id := next_id w |}
  | None => (Normal tt, w)
  end.

Inductive Event : Type :=
| Invoke (c : Call)
| Settles (n : nat) (o : Settled).

Definition step (ev : Event) : Js unit :=
  match ev with
  | Invoke c => invoke c
  | Settles n o => settle n o
  end.

Definition run (evs : list Event) (w : World) : World :=
  fold_left (fun w ev => (step ev w).2) evs w.

Definition initial : World :=
  {| view := useState_initial; trace := []; inflight := ∅; next_id := 0 |}.

(** [useEffect(() => { fetchEvents(); }, [])] *)
Definition mounted : World := (fetchEvents initial).2.

(** ** Reading a trace *)

(** What was added to the trace between [w] and [w']. *)
Definition since (w w' : World) : list Effect :=
  drop (length (trace w)) (trace w').

(** What a computation adds to the trace. *)
Definition emitted (m : Js unit) (w : World) : list Effect :=
  since w (m w).2.

(** The message on display once handler [h] has resumed on [o]. *)
Definition surfaced (h : Handler) (o : Settled) (w : World) : string :=
  message (view (resume h o w).2).

Definition sets_events (e : Effect) : bool :=
  match e with SetEvents _ => true | _ => false end.

(** An effect without the number of its request. *)
Definition anonymous (e : Effect) : Effect :=
  match e with
  | Dispatch _ req => Dispatch 0 req
  | Settle _ o => Settle 0 o
  | _ => e
  end.

(** The requests that went out, oldest first. *)
Definition dispatched (tr : list Effect) : list (nat * Request) :=
  omap (fun e => match e with Dispatch n req => Some (n, req) | _ => None end) tr.

Definition requests (tr : list Effect) : list Request := (dispatched tr).*2.

Definition is_get_events (req : Request) : bool :=
  bool_decide (method req = GET ∧ path req = "/events").

(** One pass over a trace: the request behind each number, and the data
    of the latest fulfilled [GET /events]. *)
Definition observe (g : gmap nat Request * JSON) (e : Effect)
  : gmap nat Request * JSON :=
  match e with
  | Dispatch n req => (<[n := req]> g.1, g.2)
  | Settle n (Fulfilled response) =>
      match g.1 !! n with
      | Some req => if is_get_events req then (g.1, data response) else g
      | None => g
      end
  | _ => g
  end.

(** The data of the last successful [GET /events] in a trace; before
    any, the list [useState([])] starts with. *)
Definition last_fetched (tr : list Effect) : JSON :=
  (fold_left observe tr (∅, events useState_initial)).2.

(** The text a handler shows for an error it caught. *)
Definition shown_for (h : Handler) (error : JsError) : string :=
  match h with
  | FetchEvents => error_message error
  | _ => to_string (server_message_or_own error)
  end.

Definition label_of (h : Handler) : string :=
  match h with
  | FetchEvents => "Error fetching events:"
  | CreateEvent => "Error creating event:"
  | UpdateEvent => "Error updating event:"
  | DeleteEvent => "Error deleting event:"
  | FetchWithAuth => "Error fetching user:"
  | SubmitOrder => "Error creating order:"
  end.

(** The events list survives a call [c] whose request settles as [o]:
    through the prefix, through the continuation, through the round trip
    in the event loop, and no [setEvents] call is made on the way. *)
Definition leaves_events_alone (c : Call) (o : Settled) (w : World) : Prop :=
  events (view (invoke c w).2) = events (view w)
  ∧ events (view (resume (handler_of c) o w).2) = events (view w)
  ∧ events (view (run [Invoke c; Settles (next_id w) o] w)) = events (view w)
  ∧ existsb sets_events (since w (run [Invoke c; Settles (next_id w) o] w))
    = false.

Definition carries_authorization (req : Request) : bool :=
  bool_decide ("Authorization" ∈ (headers req).*1).

(** The trace read from the start. *)
Definition ghost (tr : list Effect) : gmap nat Request * JSON :=
  fold_left observe tr (∅, events useState_initial).

(** The state agrees with the trace: the events list is the data of the
    last successful fetch, and a handler in flight is [fetchEvents]
    exactly when its request is a [GET /events]. *)
Definition coherent (w : World) : Prop :=
  events (view w) = (ghost (trace w)).2
  ∧ ∀ n h, inflight w !! n = Some h →
      ∃ req, (ghost (trace w)).1 !! n = Some req
             ∧ (is_get_events req = true ↔ h = FetchEvents).

(** ** The page *)

(** What the component function returns, without the static markup: the
    status banner with its class, the three action buttons, one card per
    event, and the notice of an empty list. *)
Record Card : Type :=
  { key : JsValue;
    title : JsValue;
    description : JsValue;
    update_click : Call;
    delete_click : Call;
    card_disabled : bool }.

Record Page : Type :=
  { banner : option (string * string);
    fetch_label : string;
    buttons_disabled : bool;
    cards : list Card;
    empty_notice : bool }.

(** [message && (<div className={...}>{message}</div>)]: the class and
    the text of the banner. *)
Definition banner_of (m : string) : option (string * string) :=
  if decide (m = "") then None
  else Some ("mb-4 p-4 rounded-lg "
             +:+ (if String.prefix "✅" m
                  then "bg-green-100 text-green-800"
                  else "bg-red-100 text-red-800"),
             m).

(** The callback of [events.map]: one card.  The children are evaluated
    before the [key], which the JSX runtime takes as its last argument. *)
Definition card (busy : bool) (event : JSON) : JsError + Card :=
  and_then (own event "title") (fun event_title =>
  and_then (own event "description") (fun event_description =>
  and_then (own event "id") (fun event_id =>
  inr {| key := event_id;
         title := event_title;
         description := event_description;
         update_click := CallUpdateEvent event_id;
         delete_click := CallDeleteEvent event_id;
         card_disabled := busy |}))).

Definition render (s : State) : JsError + Page :=
  and_then (array_map "events" (events s) (card (loading s))) (fun all =>
  inr {| banner := banner_of (message s);
         fetch_label :=
           if loading s then "Loading..." else "Fetch Events (GET)";
         buttons_disabled := loading s;
         cards := all;
         empty_notice :=
           is_zero (get (events s) K_length) && negb (loading s) |}).

(** The card of an event that is not [null]. *)
Definition card_of (busy : bool) (event : JSON) : Card :=
  {| key := plain event "id";
     title := plain event "title";
     description := plain event "description";
     update_click := CallUpdateEvent (plain event "id");
     delete_click := CallDeleteEvent (plain event "id");
     card_disabled := busy |}.

(** A message the handlers write: none, a success, or an error. *)
Definition written_by_a_handler (m : string) : Prop :=
  m = ""
  ∨ String.prefix "✅" m = true
  ∨ String.prefix "❌ Error: " m = true.

End APIUsageExamples.

(** * [EventListExample] *)

Module EventListExample.

Record State : Type :=
  { events : JSON; loading : bool; error : option string }.

Definition useState_initial : State :=
  {| events := JArr []; loading := true; error := None |}.

Definition setEvents (v : JSON) (s : State) : State :=
  {| events := v; loading := loading s; error := error s |}.

Definition setLoading (b : bool) (s : State) : State :=
  {| events := events s; loading := b; error := error s |}.

Definition setError (m : string) (s : State) : State :=
  {| events := events s; loading := loading s; error := Some m |}.

(** [api.get('/events')] in [useEffect] *)
Definition useEffect_request : Request :=
  {| method := GET; path := "/events"; body := None; headers := [] |}.

(** [.then((response) => ...)] *)
Definition on_then (response : Response) (s : State) : State :=
  setLoading false (setEvents (data response) s).

(** [.catch((error) => ...)] *)
Definition on_catch (err : JsError) (s : State) : State :=
  setLoading false (setError (error_message err) s).

Definition useEffect_settled (o : Settled) (s : State) : State :=
  match o with
  | Fulfilled response => on_then response s
  | Rejected err => on_catch err s
  end.

(** ** The screen *)

(** One card of the list; [date] is the value handed to
    [new Date(...).toLocaleDateString()], whose text is the browser's. *)
Record Card : Type :=
  { key : JsValue;
    title : JsValue;
    description : JsValue;
    location : JsValue;
    date : JsValue;
    price : JsValue }.

(** The three [return]s of the component function. *)
Inductive Screen : Type :=
| Loading
| Failed (text : string)
| Listing (cards : list Card) (empty_notice : bool).

(** The children are evaluated before the [key], which the JSX runtime
    takes as its last argument. *)
Definition card (event : JSON) : JsError + Card :=
  and_then (own event "title") (fun event_title =>
  and_then (own event "description") (fun event_description =>
  and_then (own event "location") (fun event_location =>
  and_then (own event "date") (fun event_date =>
  and_then (own event "price") (fun event_price =>
  and_then (own event "id") (fun event_id =>
  inr {| key := event_id;
         title := event_title;
         description := event_description;
         location := event_location;
         date := event_date;
         price := event_price |})))))).

(** [if (error)]: [null] and the empty string are falsy. *)
Definition error_shown (s : State) : option string :=
  match error s with
  | Some "" | None => None
  | Some text => Some text
  end.

Definition render (s : State) : JsError + Screen :=
  if loading s then inr Loading
  else match error_shown s with
       | Some text => inr (Failed text)
       | None =>
           and_then (array_map "events" (events s) card) (fun all =>
           inr (Listing all (is_zero (get (events s) K_length))))
       end.

(** The card of an event that is not [null]. *)
Definition card_of (event : JSON) : Card :=
  {| key := plain event "id";
     title := plain event "title";
     description := plain event "description";
     location := plain event "location";
     date := plain event "date";
     price := plain event "price" |}.

End EventListExample.

(** * The [api] helper *)

(** Modelled from the spec: what comes back over the wire for one
    request, a response with its status code and parsed body, or no
    response at all (timeout, DNS, connection refused). *)
Inductive Reply : Type :=
| Answer (status : Z) (body : JSON)
| NoAnswer (reason : string).

(** Modelled from the spec: the message of a protocol failure, taken
    from the message field of the parsed body when it is present, there
    a string, and otherwise a default derived from the status code. *)
Definition failure_message (st : Z) (b : JSON) : string :=
  match opt_member (Some b) K_message with
  | Some (JStr text) => text
  | _ => "Request failed with status code " +:+ pretty st
  end.

(** Modelled from the spec: the axios helper [api] of [@/lib/api] is not
    among the sources.  A status in [200,400) is a success and resolves
    with the response; a status of 400 or more is a protocol failure and
    rejects with an error that carries the response and the message of
    the failure; no response at all rejects with a description of the
    transport error and no response.  The spec is silent below 200; such
    a status is rejected here. *)
Definition api_settle (r : Reply) : Settled :=
  match r with
  | Answer st b =>
      if bool_decide (200 ≤ st < 400)%Z
      then Fulfilled {| status := st; data := b |}
      else Rejected
             {| error_message := failure_message st b;
                error_response := Some {| status := st; data := b |} |}
  | NoAnswer reason =>
      Rejected {| error_message := reason; error_response := None |}
  end.

(** * Properties *)

Import APIUsageExamples.

(** ** The JavaScript fragment on examples *)

Example to_string_nested :
  to_string (Some (JArr [JNum 1%Z; JNull; JArr [JStr "a"; JBool true]; JObj []]))
  = "1,,a,true,[object Object]".
Proof. vm_compute. reflexivity. Qed.

Example length_check_mark : utf16_length "✅ ok" = 4.
Proof. reflexivity. Qed.

Example field_last_wins :
  field "id" [("id", JNum 1%Z); ("x", JNull); ("id", JNum 2%Z)] = Some (JNum 2%Z).
Proof. reflexivity. Qed.

Example null_has_no_members : member JNull K_id = inl (TypeError_null K_id).
Proof. reflexivity. Qed.

Example empty_message_is_falsy :
  js_or (Some (JStr "")) (Some (JStr "own")) = Some (JStr "own").
Proof. reflexivity. Qed.

(** Two fetches in flight: the list on display is the data of the one
    fulfilled last, here the one that was sent first. *)
Example the_fetch_fulfilled_last_wins :
  let first := Fulfilled {| status := 200; data := JArr [JStr "first"] |} in
  let second := Fulfilled {| status := 200; data := JArr [JStr "second"] |} in
  let w := run [Invoke CallFetchEvents; Settles 1 second; Settles 0 first] mounted in
  events (view w) = JArr [JStr "first"]
  ∧ last_fetched (trace w) = JArr [JStr "first"]
  ∧ message (view w) = "✅ Fetched 1 events".
Proof. vm_compute. by repeat split. Qed.

(** ** Running handler code symbolically *)

(** Worlds are opened into their fields first, so that every state
    update computes on a constructor. *)
Ltac open_worlds :=
  repeat match goal with
         | w : World |- _ => destruct w as [[? ? ?] ? ? ?]
         end;
  cbn [view trace inflight next_id events loading message] in *.

Ltac js_run :=
  open_worlds;
  cbv [step invoke resume surfaced
       fetchEvents fetchEvents_resume createEvent createEvent_resume
       updateEvent updateEvent_resume deleteEvent deleteEvent_resume
       fetchWithAuth fetchWithAuth_resume submitOrder submitOrder_resume
       mbind mret Js_bind Js_ret throw try_catch_finally
       set setEvents setLoading setMessage console_error api_call await read
       member emitted since
       view trace inflight next_id events loading message data];
  cbn [fst snd].

Lemma drop_old (t new : list Effect) : drop (length t) (t ++ new) = new.
Proof. apply drop_app_length. Qed.

Ltac js_trace :=
  rewrite <- ?(assoc_L (++)); rewrite ?drop_old; cbn [app].

(** Cases of a settled promise: rejected, or fulfilled with each shape of
    body. *)
Ltac settled_cases o :=
  let st := fresh "st" in
  let d := fresh "d" in
  let error := fresh "error" in
  destruct o as [[st d]|error]; [destruct d|].

(** A handler that has just been invoked resumes when its own request
    settles. *)
Lemma settle_own c o w :
  settle (next_id w) o (invoke c w).2
  = resume (handler_of c) o
      {| view := view (invoke c w).2;
         trace := trace (invoke c w).2 ++ [Settle (next_id w) o];
         inflight := delete (next_id w) (inflight (invoke c w).2);
         next_id := next_id (invoke c w).2 |}.
Proof.
  unfold settle.
  replace (inflight (invoke c w).2 !! next_id w) with (Some (handler_of c));
    [reflexivity|].
  destruct c; js_run; by rewrite lookup_insert_eq.
Qed.

Lemma settle_in_flight n h o w :
  inflight w !! n = Some h →
  settle n o w
  = resume h o
      {| view := view w; trace := trace w ++ [Settle n o];
         inflight := delete n (inflight w); next_id := next_id w |}.
Proof. intros Hn. unfold settle. by rewrite Hn. Qed.

(** ** Nothing escapes a handler *)

Lemma invoke_normal c w : (invoke c w).1 = Normal tt.
Proof. by destruct c. Qed.

Lemma resume_normal h o w : (resume h o w).1 = Normal tt.
Proof. destruct h; settled_cases o; reflexivity. Qed.

Lemma step_normal ev w : (step ev w).1 = Normal tt.
Proof.
  destruct ev as [c|n o]; [apply invoke_normal|].
  cbn [step]. unfold settle. destruct (inflight w !! n); [apply resume_normal|done].
Qed.

(** ** The loading flag *)

(** C8. Every operation sets the loading flag to true first thing on
    entry, and whatever the outcome of its request, the handler completes
    and the last thing it does is to set the flag back to false: the
    reset sits in the [finally] block, which every path runs. *)
Theorem loading_set_on_entry_reset_on_completion :
  (∀ c w,
     head (emitted (invoke c) w) = Some (SetLoading true)
     ∧ loading (view (invoke c w).2) = true)
  ∧ (∀ h o w,
       (resume h o w).1 = Normal tt
       ∧ last (emitted (resume h o) w) = Some (SetLoading false)
       ∧ loading (view (resume h o w).2) = false).
Proof.
  split.
  - intros c w. destruct c; js_run; js_trace; by split.
  - intros h o w. split; [apply resume_normal|].
    destruct h; settled_cases o; js_run; js_trace; by split.
Qed.

(** ** The events list is framed out of two handlers *)

(** C9. [fetchWithAuth] and [submitOrder] never modify the events list:
    for every token and every outcome of the request (fulfilled, rejected
    with a response, rejected without one) the events state after equals
    the events state before, on entry, on completion and over the whole
    round trip, and no [setEvents] call is made. *)
Theorem auth_and_order_leave_events_alone :
  ∀ (token : JsValue) (o : Settled) (w : World),
    leaves_events_alone (CallFetchWithAuth token) o w
    ∧ leaves_events_alone CallSubmitOrder o w.
Proof.
  intros token o w. unfold leaves_events_alone, run; cbn [fold_left step].
  rewrite !settle_own. cbn [handler_of].
  settled_cases o; js_run; js_trace; by repeat split.
Qed.

(** ** Failures are caught and shown *)

(** What the handlers do with a rejection, on the values the model
    prints.  Every step of the event loop completes normally.  When the
    api call of any operation rejects, the handler logs the error, shows
    an error message made from it and resets the loading flag, and does
    nothing else.  What a call of an operation does, and what a handler
    does when its request settles, is the same in every world. *)
Theorem failures_are_caught_and_leave_the_component_usable :
  (∀ ev w, (step ev w).1 = Normal tt)
  ∧ (∀ h error w,
       emitted (resume h (Rejected error)) w
       = [ConsoleError (label_of h) error;
          SetMessage ("❌ Error: " +:+ shown_for h error);
          SetLoading false]
       ∧ surfaced h (Rejected error) w = "❌ Error: " +:+ shown_for h error)
  ∧ (∀ c w1 w2,
       anonymous <$> emitted (invoke c) w1 = anonymous <$> emitted (invoke c) w2
       ∧ loading (view (invoke c w1).2) = loading (view (invoke c w2).2)
       ∧ message (view (invoke c w1).2) = message (view (invoke c w2).2))
  ∧ (∀ h o w1 w2,
       anonymous <$> emitted (resume h o) w1 = anonymous <$> emitted (resume h o) w2
       ∧ loading (view (resume h o w1).2) = loading (view (resume h o w2).2)
       ∧ message (view (resume h o w1).2) = message (view (resume h o w2).2)).
Proof.
  split; [exact step_normal|]. split; [|split].
  - intros h error w. destruct h; js_run; js_trace; by split.
  - intros c w1 w2. destruct c; js_run; js_trace; by repeat split.
  - intros h o w1 w2.
    destruct h; settled_cases o; js_run; js_trace; by repeat split.
Qed.

(** ** Requests *)

Lemma invoke_emits c w :
  emitted (invoke c) w
  = [SetLoading true; SetMessage ""; Dispatch (next_id w) (request_of c)].
Proof. destruct c; js_run; js_trace; reflexivity. Qed.

(** C6. For every token string, [fetchWithAuth(token)] issues one request,
    a GET of [/auth/user] whose Authorization header is exactly
    ["Bearer "] followed by the token.  The request of every call is made
    from the arguments of that call alone, whatever the world it is
    called in, so no credential is carried from one call to the next:
    only a [fetchWithAuth] request has an Authorization header, and the
    one request a continuation may issue, the refetch, has none. *)
Theorem bearer_token_is_supplied_per_call :
  (∀ (token : string) w,
     emitted (fetchWithAuth (Some (JStr token))) w
     = [SetLoading true; SetMessage "";
        Dispatch (next_id w)
          {| method := GET; path := "/auth/user"; body := None;
             headers := [("Authorization", "Bearer " +:+ token)] |}])
  ∧ (∀ c w, dispatched (emitted (invoke c) w) = [(next_id w, request_of c)])
  ∧ (∀ c, carries_authorization (request_of c)
          = match c with CallFetchWithAuth _ => true | _ => false end)
  ∧ (∀ h o w,
       requests (emitted (resume h o) w) = []
       ∨ requests (emitted (resume h o) w) = [fetchEvents_request])
  ∧ carries_authorization fetchEvents_request = false.
Proof.
  split; [|split; [|split; [|split]]].
  - intros token w. apply (invoke_emits (CallFetchWithAuth (Some (JStr token)))).
  - intros c w. by rewrite invoke_emits.
  - by intros [].
  - intros h o w.
    destruct h; settled_cases o; js_run; js_trace; (by left) || (by right).
  - reflexivity.
Qed.

(** C7. Nothing is cached or deduplicated.  Every invocation of
    [fetchEvents], in whatever state, sends a GET of [/events]; two calls
    in sequence, the second after the first has settled either way, send
    two requests under two different numbers.  After a delete that
    succeeded, the list on display is untouched until the refetch
    settles, and is then exactly the data the server answered the
    refetch with: the deletion shows if and only if that data shows it. *)
Theorem every_fetch_is_a_fresh_request :
  (∀ w, dispatched (emitted fetchEvents w) = [(next_id w, fetchEvents_request)])
  ∧ (∀ w o,
       dispatched
         (since w (run [Invoke CallFetchEvents; Settles (next_id w) o;
                        Invoke CallFetchEvents] w))
       = [(next_id w, fetchEvents_request); (S (next_id w), fetchEvents_request)])
  ∧ (∀ w eventId deleted fetched,
       let w1 := run [Invoke (CallDeleteEvent eventId);
                      Settles (next_id w) (Fulfilled deleted)] w in
       let w2 := run [Settles (S (next_id w)) (Fulfilled fetched)] w1 in
       events (view w1) = events (view w)
       ∧ dispatched (since w w1)
         = [(next_id w, deleteEvent_request eventId);
            (S (next_id w), fetchEvents_request)]
       ∧ events (view w2) = data fetched).
Proof.
  split; [|split].
  - intros w. by rewrite (invoke_emits CallFetchEvents).
  - intros w o. unfold run; cbn [fold_left step]. rewrite settle_own.
    cbn [handler_of]. settled_cases o; js_run; js_trace; reflexivity.
  - intros w eventId [st1 d1] [st2 d2].
    unfold run; cbn [fold_left step]. rewrite settle_own. cbn [handler_of].
    js_run. rewrite (settle_in_flight _ FetchEvents) by apply lookup_insert_eq.
    js_run. js_trace. destruct d2; by repeat split.
Qed.

(** A 201 answer is a success of the [api] helper, with the body as it
    came. *)
Lemma answer_201_is_fulfilled body :
  api_settle (Answer 201 body) = Fulfilled {| status := 201; data := body |}.
Proof. reflexivity. Qed.

(** C5, at the input where the code departs from it.  [POST /events] is
    fulfilled with status 201 and a body whose [id] is the string [s],
    as for [{"id":"abc123"}].  [createEvent] reads that [id] and calls
    [setMessage] with the created-event text ending in [s]; the refetch
    it starts next, before the handler is over, calls [setMessage('')].
    At the end of the handler the message is empty and there is no
    banner, and once the refetch has settled the message is the one of
    the fetch: the id is never on display. *)
Theorem created_id_is_set_and_cleared_in_the_same_turn :
  ∀ (s : string) (w : World),
    let created :=
      Fulfilled {| status := 201; data := JObj [("id", JStr s)] |} in
    let w' := (createEvent_resume created w).2 in
    get (JObj [("id", JStr s)]) K_id = Some (JStr s)
    ∧ emitted (createEvent_resume created) w
      = [SetMessage ("✅ Event created with ID: " +:+ s);
         SetLoading true; SetMessage "";
         Dispatch (next_id w) fetchEvents_request;
         SetLoading false]
    ∧ surfaced CreateEvent created w = ""
    ∧ banner_of (surfaced CreateEvent created w) = None
    ∧ (∀ o, message (view (settle (next_id w) o w').2)
            = surfaced FetchEvents o w).
Proof.
  intros s w. split; [reflexivity|].
  split; [js_run; js_trace; reflexivity|].
  split; [by js_run|]. split; [by js_run|].
  intros o. js_run.
  rewrite (settle_in_flight _ FetchEvents) by apply lookup_insert_eq.
  settled_cases o; by js_run.
Qed.

(** ** Refetch after a mutation *)

(** [updateEvent] and [deleteEvent] refetch exactly when their request
    was fulfilled. *)
Lemma update_delete_refetch_iff_fulfilled h o w :
  h = UpdateEvent ∨ h = DeleteEvent →
  requests (emitted (resume h o) w)
  = match o with Fulfilled _ => [fetchEvents_request] | Rejected _ => [] end.
Proof.
  intros [-> | ->]; settled_cases o; js_run; js_trace; reflexivity.
Qed.

(** [createEvent] refetches exactly when its request was fulfilled with a
    body other than [null]. *)
Lemma create_refetch_iff_body_read o w :
  requests (emitted (createEvent_resume o) w)
  = match o with
    | Fulfilled {| data := JNull |} | Rejected _ => []
    | Fulfilled _ => [fetchEvents_request]
    end.
Proof. settled_cases o; js_run; js_trace; reflexivity. Qed.

(** C3, at the input where the code departs from it.  [POST /events] is
    fulfilled with status 201 and the body [null]: reading [.id] off the
    body throws inside the [try] block, the [catch] block shows the
    [TypeError] as if the request had failed, and the refetch is never
    reached, so the only request of the round trip is the POST. *)
Theorem create_fulfilled_with_null_body_does_not_refetch :
  ∀ (now : string) (w : World),
    let created := Fulfilled {| status := 201; data := JNull |} in
    let w' := run [Invoke (CallCreateEvent now); Settles (next_id w) created] w in
    requests (since w w') = [createEvent_request now]
    ∧ inflight w' = delete (next_id w) (<[next_id w := CreateEvent]> (inflight w))
    ∧ message (view w')
      = "❌ Error: Cannot read properties of null (reading 'id')".
Proof.
  intros now w. unfold run; cbn [fold_left step]. rewrite settle_own.
  cbn [handler_of]. js_run. js_trace. by repeat split.
Qed.

(** ** The message shown for a failure *)

(** C1 as stated, at two inputs.  [fetchEvents] receives a 404 whose body
    is [{"message":"not found"}] and shows the error's own message, the
    body's field unread.  [createEvent] receives a 400 whose body has the
    message field, holding the empty string, and shows the error's own
    message as well. *)
Lemma body_message_is_not_always_the_one_shown :
  let claim (h : Handler) (error : JsError) : Prop :=
    ∀ v, opt_member (response_data error) K_message = Some v →
         surfaced h (Rejected error) mounted = "❌ Error: " +:+ to_string (Some v) in
  ¬ claim FetchEvents
      {| error_message := "Request failed with status code 404";
         error_response :=
           Some {| status := 404;
                   data := JObj [("message", JStr "not found")] |} |}
  ∧ ¬ claim CreateEvent
        {| error_message := "Request failed with status code 400";
           error_response :=
             Some {| status := 400; data := JObj [("message", JStr "")] |} |}.
Proof.
  split; intros H; specialize (H _ eq_refl); vm_compute in H; discriminate H.
Qed.

(** C1, amended.  For each of [createEvent], [updateEvent], [deleteEvent],
    [fetchWithAuth] and [submitOrder], the message shown for a rejected
    request is the error banner followed by the [message] field of the
    response body when the error carries a response whose body has a
    truthy such field, and by the error's own message otherwise; a 404
    with body [{"message":"not found"}] shows ["❌ Error: not found"]. *)
Theorem body_message_shown_when_truthy :
  ∀ (h : Handler) (w : World),
    h ≠ FetchEvents →
    (∀ error,
       let server := opt_member (response_data error) K_message in
       surfaced h (Rejected error) w
       = "❌ Error: "
         +:+ (if truthy server then to_string server else error_message error))
    ∧ (∀ own,
         surfaced h
           (Rejected
              {| error_message := own;
                 error_response :=
                   Some {| status := 404;
                           data := JObj [("message", JStr "not found")] |} |})
           w
         = "❌ Error: not found").
Proof.
  intros h w Hh.
  assert (Hshown : ∀ error,
    surfaced h (Rejected error) w
    = "❌ Error: " +:+ to_string (server_message_or_own error)).
  { intros error. destruct h; try done; reflexivity. }
  split.
  - intros error server. rewrite Hshown. unfold server_message_or_own, js_or.
    fold server. by destruct (truthy server).
  - intros own. by rewrite Hshown.
Qed.

Lemma body_message_shown_when_truthy_witness :
  surfaced UpdateEvent
    (Rejected
       {| error_message := "Request failed with status code 404";
          error_response :=
            Some {| status := 404;
                    data := JObj [("message", JStr "not found")] |} |})
    mounted
  = "❌ Error: not found".
Proof.
  apply (body_message_shown_when_truthy UpdateEvent mounted).
  discriminate.
Defined.

(** ** The events list is the last successful fetch *)

Lemma ghost_snoc tr e : ghost (tr ++ [e]) = observe (ghost tr) e.
Proof. unfold ghost. by rewrite fold_left_app. Qed.

Lemma coherent_initial : coherent initial.
Proof.
  split; [reflexivity|].
  intros n h H. unfold initial in H; cbn [inflight] in H.
  by rewrite lookup_empty in H.
Qed.

Lemma request_kind c :
  is_get_events (request_of c) = true ↔ handler_of c = FetchEvents.
Proof. destruct c; cbn; split; (done || discriminate). Qed.

Lemma invoke_coherent c w : coherent w → coherent (invoke c w).2.
Proof.
  intros [Hev Hin]. pose proof (request_kind c) as Hk.
  destruct c; js_run;
    (split; cbn [view trace inflight events];
     rewrite !ghost_snoc; cbn [observe fst snd]; [exact Hev|]);
    intros n h; rewrite !lookup_insert; case_decide; subst; auto;
    intros [= <-]; eexists; (split; [reflexivity|exact Hk]).
Qed.

Lemma settle_coherent n o w : coherent w → coherent (settle n o w).2.
Proof.
  intros [Hev Hin]. unfold settle.
  destruct (inflight w !! n) as [h|] eqn:Hn; [|by split].
  destruct (Hin n h Hn) as (req & Hreq & Hkind).
  assert (Hothers : ∀ m k, delete n (inflight w) !! m = Some k →
    ∃ req, (ghost (trace w)).1 !! m = Some req
           ∧ (is_get_events req = true ↔ k = FetchEvents)).
  { intros m k Hm. apply lookup_delete_Some in Hm as [_ Hm]. eauto. }
  destruct (is_get_events req) eqn:Hg;
    [ assert (Hh : h = FetchEvents) by (by apply Hkind)
    | assert (Hh : h ≠ FetchEvents) by (intros Hh; by apply Hkind in Hh) ];
    destruct h; try congruence; settled_cases o; js_run.
  all: split; cbn [view trace inflight events].
  all: rewrite ?ghost_snoc; cbn [observe fst snd]; rewrite ?Hreq, ?Hg;
       cbn [fst snd data]; try done.
  all: intros m k; rewrite ?lookup_insert; case_decide; subst; auto.
  all: intros [= <-]; eexists; by split.
Qed.

Lemma run_coherent evs w : coherent w → coherent (run evs w).
Proof.
  revert w. induction evs as [|ev evs IH]; intros w Hw; [done|].
  apply IH. destruct ev; [by apply invoke_coherent | by apply settle_coherent].
Qed.

(** C2. In every state the component can reach, the events list equals
    the data of the last [GET /events] that was fulfilled, the initial
    empty list before any.  [setEvents] is called by the continuation of
    [fetchEvents] on a fulfilled request, with the data of the response,
    and nowhere else; invoking an operation and the rejection of any
    request, a fetch or a mutation, leave the events list as it was.
    [EventListExample] sets its list to the data of its one fetch when
    fulfilled and leaves it when rejected. *)
Theorem events_is_the_last_successful_fetch :
  (∀ evs, events (view (run evs initial)) = last_fetched (trace (run evs initial)))
  ∧ (∀ h o w,
       List.filter sets_events (emitted (resume h o) w)
       = match h, o with
         | FetchEvents, Fulfilled response => [SetEvents (data response)]
         | _, _ => []
         end)
  ∧ (∀ c w, events (view (invoke c w).2) = events (view w))
  ∧ (∀ n error w, events (view (settle n (Rejected error) w).2) = events (view w))
  ∧ (∀ response s,
       EventListExample.events
         (EventListExample.useEffect_settled (Fulfilled response) s)
       = data response)
  ∧ (∀ error s,
       EventListExample.events
         (EventListExample.useEffect_settled (Rejected error) s)
       = EventListExample.events s).
Proof.
  split; [|split; [|split; [|split; [|split]]]].
  - intros evs. apply (run_coherent evs initial coherent_initial).
  - intros h o w. destruct h; settled_cases o; js_run; js_trace; reflexivity.
  - intros c w. by destruct c.
  - intros n error w. unfold settle.
    destruct (inflight w !! n) as [h|]; [|done]. by destruct h.
  - done.
  - done.
Qed.

(** * The page of [APIUsageExamples] *)

(** ** [events.map] *)

Lemma card_not_null busy event :
  event ≠ JNull → card busy event = inr (card_of busy event).
Proof. by destruct event. Qed.

Lemma map_items_cards busy (items : list JSON) :
  JNull ∉ items → map_items (card busy) items = inr (card_of busy <$> items).
Proof.
  induction items as [|event rest IH]; [done|].
  intros Hnull. apply not_elem_of_cons in Hnull as [Hevent Hrest].
  cbn [map_items]. rewrite card_not_null by done. cbn [and_then].
  by rewrite IH.
Qed.

Lemma map_items_null busy (items : list JSON) :
  JNull ∈ items → map_items (card busy) items = inl (TypeError_reading "title").
Proof.
  induction items as [|event rest IH]; [by intros ?%elem_of_nil|].
  intros [<- | Hrest]%elem_of_cons; [done|].
  cbn [map_items]. destruct event; try done.
  all: cbn [card own and_then]; by rewrite IH.
Qed.

(** Whether an array holds a [null]. *)
Lemma null_among (items : list JSON) : JNull ∈ items ∨ JNull ∉ items.
Proof.
  induction items as [|event rest [IH|IH]].
  - right. apply not_elem_of_nil.
  - left. by right.
  - destruct event; try (right; apply not_elem_of_cons; by split).
    left. by left.
Qed.

(** X1. The component function returns a page exactly when the events
    state is an array none of whose items is [null]; in every other
    state it throws. *)
Theorem render_succeeds_exactly_on_arrays_of_non_null_events :
  ∀ s : State,
    (∃ page, render s = inr page)
    ↔ (∃ items, events s = JArr items ∧ JNull ∉ items).
Proof.
  intros [evs busy m]. unfold render. cbn [events loading message]. split.
  - intros [page Hpage]. destruct evs as [| | | |items|]; try done.
    exists items. split; [done|].
    destruct (null_among items) as [Hnull|]; [|done].
    cbn [array_map] in Hpage. by rewrite (map_items_null _ _ Hnull) in Hpage.
  - intros (items & -> & Hnull). cbn [array_map].
    rewrite map_items_cards by done. cbn [and_then]. by eexists.
Qed.

Lemma render_succeeds_exactly_on_arrays_of_non_null_events_witness :
  ∃ items,
    events {| events := JArr [JObj [("id", JStr "e1")]];
              loading := false; message := "" |} = JArr items
    ∧ JNull ∉ items.
Proof.
  apply (render_succeeds_exactly_on_arrays_of_non_null_events
           {| events := JArr [JObj [("id", JStr "e1")]];
              loading := false; message := "" |}).
  eexists. reflexivity.
Defined.

(** ** The banner *)

Lemma banner_of_success m :
  String.prefix "✅" m = true →
  banner_of m = Some ("mb-4 p-4 rounded-lg bg-green-100 text-green-800", m).
Proof.
  intros Hm. unfold banner_of. rewrite Hm.
  destruct (decide (m = "")) as [->|]; [discriminate Hm|reflexivity].
Qed.

(** The two marks share their first byte and differ in the second. *)
Lemma error_is_no_success m :
  String.prefix "❌ Error: " m = true → String.prefix "✅" m = false.
Proof.
  destruct m as [|c1 [|c2 m]]; [done| |]; cbn [String.prefix].
  - by destruct (ascii_dec _ c1).
  - destruct (ascii_dec _ c1); [|done].
    destruct (ascii_dec _ c2) as [<-|]; [|done]. intros _.
    by destruct (ascii_dec _ _).
Qed.

Lemma banner_of_error m :
  String.prefix "❌ Error: " m = true →
  banner_of m = Some ("mb-4 p-4 rounded-lg bg-red-100 text-red-800", m).
Proof.
  intros Hm. unfold banner_of. rewrite (error_is_no_success m Hm).
  destruct (decide (m = "")) as [->|]; [discriminate Hm|reflexivity].
Qed.

(** The items of a fetched array count as [response.data.length]. *)
Lemma zero_length (items : list JSON) :
  is_zero (Some (JNum (Z.of_nat (length items))))
  = match items with [] => true | _ => false end.
Proof. by destruct items. Qed.

(** X2. A fetch fulfilled with an array of events, none of them [null],
    is shown card by card: one card per event, in the order of the
    response, each with the event's own [id], [title] and [description];
    the banner is the green one and counts the events, the buttons are
    enabled, and the notice of an empty list shows exactly when the
    array is empty. *)
Theorem fetched_array_is_rendered_card_by_card :
  ∀ (st : Z) (items : list JSON) (w : World),
    JNull ∉ items →
    render
      (view (fetchEvents_resume
               (Fulfilled {| status := st; data := JArr items |}) w).2)
    = inr {| banner :=
               Some ("mb-4 p-4 rounded-lg bg-green-100 text-green-800",
                     "✅ Fetched " +:+ pretty (Z.of_nat (length items))
                     +:+ " events");
             fetch_label := "Fetch Events (GET)";
             buttons_disabled := false;
             cards := card_of false <$> items;
             empty_notice := match items with [] => true | _ => false end |}.
Proof.
  intros st items w Hnull. js_run. unfold render.
  cbn [events loading message array_map get to_string json_to_string].
  rewrite map_items_cards by done. cbn [and_then].
  rewrite banner_of_success by reflexivity.
  by rewrite zero_length, andb_true_r.
Qed.

Lemma fetched_array_is_rendered_card_by_card_witness :
  let items := [JObj [("id", JStr "e1"); ("title", JStr "Gig")];
                JObj [("title", JStr "Talk")]] in
  render
    (view (fetchEvents_resume
             (Fulfilled {| status := 200; data := JArr items |}) mounted).2)
  = inr {| banner :=
             Some ("mb-4 p-4 rounded-lg bg-green-100 text-green-800",
                   "✅ Fetched 2 events");
           fetch_label := "Fetch Events (GET)";
           buttons_disabled := false;
           cards :=
             [ {| key := Some (JStr "e1"); title := Some (JStr "Gig");
                  description := None;
                  update_click := CallUpdateEvent (Some (JStr "e1"));
                  delete_click := CallDeleteEvent (Some (JStr "e1"));
                  card_disabled := false |};
               {| key := None; title := Some (JStr "Talk");
                  description := None;
                  update_click := CallUpdateEvent None;
                  delete_click := CallDeleteEvent None;
                  card_disabled := false |} ];
           empty_notice := false |}.
Proof.
  intros items.
  apply (fetched_array_is_rendered_card_by_card 200 items mounted).
  intros H. repeat (apply elem_of_cons in H as [H|H]; [discriminate H|]).
  by apply elem_of_nil in H.
Defined.

Lemma prefix_append p s : String.prefix p (p +:+ s) = true.
Proof.
  induction p as [|a p IH]; [by destruct s|].
  change (String a p +:+ s) with (String a (p +:+ s)).
  change ((if ascii_dec a a then String.prefix p (p +:+ s) else false) = true).
  destruct (ascii_dec a a); [exact IH|congruence].
Qed.

(** X3. [fetchEvents] stores whatever body a fulfilled request brings.
    When the body is no array, the events state is that body and the
    next call of the component function throws: on [null], whose fetch
    has already shown an error, and on every other body, whose fetch has
    shown the success banner. *)
Theorem fetch_of_a_non_array_breaks_the_page :
  ∀ (st : Z) (body : JSON) (w : World),
    (∀ items, body ≠ JArr items) →
    let s := view (fetchEvents_resume
                     (Fulfilled {| status := st; data := body |}) w).2 in
    events s = body
    ∧ render s
      = inl (match body with
             | JNull => TypeError_reading "map"
             | _ => TypeError_not_a_function "events.map"
             end)
    ∧ match body with
      | JNull =>
          message s
          = "❌ Error: Cannot read properties of null (reading 'length')"
      | _ => String.prefix "✅ Fetched " (message s) = true
      end.
Proof.
  intros st body w Harray.
  destruct body as [| | | |items|]; try (by destruct (Harray items));
    js_run; unfold render; cbn [events loading message array_map and_then];
    repeat split; apply prefix_append.
Qed.

Lemma fetch_of_a_non_array_breaks_the_page_witness :
  let body := JObj [("events", JArr [])] in
  let s := view (fetchEvents_resume
                   (Fulfilled {| status := 200; data := body |}) mounted).2 in
  message s = "✅ Fetched undefined events"
  ∧ render s = inl (TypeError_not_a_function "events.map").
Proof.
  intros body s.
  destruct (fetch_of_a_non_array_breaks_the_page 200 body mounted)
    as (_ & Hrender & _); [discriminate|].
  split; [reflexivity|exact Hrender].
Defined.

(** X4. The Update and Delete buttons of a card act on the event of that
    card: the card at position [i] is made from the item at position [i]
    of the events state, and a click sends PATCH, respectively DELETE, to
    [/events/] followed by the [id] of that item: the string itself when
    the [id] is a string, its decimal digits when it is an integer up to
    [Number.MAX_SAFE_INTEGER] in absolute value, and [undefined] when the
    item has no [id]. *)
Theorem card_buttons_act_on_the_event_of_their_card :
  ∀ (s : State) (items : list JSON) (i : nat) (event : JSON) (tail : string)
    (w : World),
    events s = JArr items →
    JNull ∉ items →
    items !! i = Some event →
    plain event "id" = Some (JStr tail)
    ∨ (∃ z, plain event "id" = Some (JNum z)
            ∧ (Z.abs z ≤ MAX_SAFE_INTEGER)%Z ∧ tail = pretty z)
    ∨ (plain event "id" = None ∧ tail = "undefined") →
    ∃ page c,
      render s = inr page
      ∧ cards page !! i = Some c
      ∧ key c = plain event "id"
      ∧ dispatched (emitted (invoke (update_click c)) w)
        = [(next_id w,
            {| method := PATCH; path := "/events/" +:+ tail;
               body := Some updates; headers := [] |})]
      ∧ dispatched (emitted (invoke (delete_click c)) w)
        = [(next_id w,
            {| method := DELETE; path := "/events/" +:+ tail;
               body := None; headers := [] |})].
Proof.
  intros [evs busy m] items i event tail w Hevs Hnull Hi Hid.
  cbn [events] in Hevs. subst evs.
  eexists _, (card_of busy event). unfold render.
  cbn [events loading message array_map]. rewrite map_items_cards by done.
  cbn [and_then]. split; [reflexivity|]. cbn [cards].
  split; [by rewrite list_lookup_fmap, Hi|]. split; [reflexivity|].
  cbn [card_of update_click delete_click]. rewrite !invoke_emits.
  cbn [request_of updateEvent_request deleteEvent_request].
  destruct Hid as [-> | [(z & -> & _ & ->) | [-> ->]]]; by split.
Qed.

Lemma card_buttons_act_on_the_event_of_their_card_witness :
  let items := [JObj [("id", JNum 7)]; JObj [("title", JStr "no id")]] in
  ∃ page c,
    render {| events := JArr items; loading := false; message := "" |}
    = inr page
    ∧ cards page !! 0 = Some c
    ∧ key c = Some (JNum 7)
    ∧ dispatched (emitted (invoke (update_click c)) initial)
      = [(0, {| method := PATCH; path := "/events/7";
                body := Some updates; headers := [] |})]
    ∧ dispatched (emitted (invoke (delete_click c)) initial)
      = [(0, {| method := DELETE; path := "/events/7";
                body := None; headers := [] |})].
Proof.
  intros items.
  apply (card_buttons_act_on_the_event_of_their_card
           {| events := JArr items; loading := false; message := "" |}
           items 0 (JObj [("id", JNum 7)]) "7" initial).
  - reflexivity.
  - intros H. repeat (apply elem_of_cons in H as [H|H]; [discriminate H|]).
    by apply elem_of_nil in H.
  - reflexivity.
  - right; left. exists 7%Z. split; [reflexivity|]. split; [|reflexivity].
    unfold MAX_SAFE_INTEGER. lia.
Defined.

(** X5. While the request of a call is awaited the page is inert: with an
    events state the page can show, right after any operation is invoked
    there is no banner, the first button reads [Loading...], the three
    action buttons and the two buttons of every card are disabled, and
    the notice of an empty list is hidden. *)
Theorem while_loading_the_page_is_inert :
  ∀ (c : Call) (w : World) (items : list JSON),
    events (view w) = JArr items →
    JNull ∉ items →
    render (view (invoke c w).2)
    = inr {| banner := None;
             fetch_label := "Loading...";
             buttons_disabled := true;
             cards := card_of true <$> items;
             empty_notice := false |}.
Proof.
  intros c w items Hevs Hnull. destruct c; js_run; subst; unfold render;
    cbn [events loading message array_map];
    rewrite map_items_cards by done; cbn [and_then];
    by rewrite andb_false_r.
Qed.

Lemma while_loading_the_page_is_inert_witness :
  render (view (invoke CallSubmitOrder initial).2)
  = inr {| banner := None;
           fetch_label := "Loading...";
           buttons_disabled := true;
           cards := [];
           empty_notice := false |}.
Proof.
  apply (while_loading_the_page_is_inert CallSubmitOrder initial []).
  - reflexivity.
  - apply not_elem_of_nil.
Defined.

(** ** The message over a run *)

Lemma invoke_message c w : message (view (invoke c w).2) = "".
Proof. by destruct c. Qed.

Lemma resume_message h o w :
  written_by_a_handler (message (view (resume h o w).2)).
Proof.
  destruct h; settled_cases o; js_run;
    first [ by left
          | right; left; apply (prefix_append "✅")
          | right; right; apply prefix_append ].
Qed.

Lemma step_message ev w :
  written_by_a_handler (message (view w)) →
  written_by_a_handler (message (view (step ev w).2)).
Proof.
  intros Hw. destruct ev as [c|n o]; cbn [step].
  - left. apply invoke_message.
  - unfold settle. destruct (inflight w !! n); [apply resume_message|done].
Qed.

Lemma run_message evs w :
  written_by_a_handler (message (view w)) →
  written_by_a_handler (message (view (run evs w))).
Proof.
  revert w. induction evs as [|ev evs IH]; intros w Hw; [done|].
  apply IH. by apply step_message.
Qed.

(** X6. In every state the component reaches, the message is empty,
    begins with the check mark, or begins with the cross and [Error:];
    so the banner is absent, green with a success text, or red with an
    error text, and never red or green around anything else. *)
Theorem banner_is_absent_green_or_red :
  ∀ evs : list Event,
    let m := message (view (run evs initial)) in
    (m = "" ∧ banner_of m = None)
    ∨ (String.prefix "✅" m = true
       ∧ banner_of m
         = Some ("mb-4 p-4 rounded-lg bg-green-100 text-green-800", m))
    ∨ (String.prefix "❌ Error: " m = true
       ∧ banner_of m
         = Some ("mb-4 p-4 rounded-lg bg-red-100 text-red-800", m)).
Proof.
  intros evs m.
  destruct (run_message evs initial) as [Hm|[Hm|Hm]]; [by left| | |].
  - left. fold m in Hm. by rewrite Hm.
  - right; left. split; [done|]. by apply banner_of_success.
  - right; right. split; [done|]. by apply banner_of_error.
Qed.

(** ** Requests in flight and the loading flag *)

(** X7. A mutation that succeeded leaves no message behind.  When the
    request of [updateEvent] or [deleteEvent] is fulfilled, or that of
    [createEvent] with a body other than [null], then at the end of the
    continuation the message is empty and the loading flag is off, while
    the refetch it has started is still in flight. *)
Theorem successful_mutation_leaves_no_message :
  ∀ (h : Handler) (response : Response) (w : World),
    h = UpdateEvent ∨ h = DeleteEvent
    ∨ (h = CreateEvent ∧ data response ≠ JNull) →
    let w' := (resume h (Fulfilled response) w).2 in
    message (view w') = ""
    ∧ loading (view w') = false
    ∧ inflight w' !! next_id w = Some FetchEvents
    ∧ banner_of (message (view w')) = None.
Proof.
  intros h [st d] w Hh.
  destruct Hh as [-> | [-> | [-> Hd]]]; cbn [data] in *;
    try (destruct d; [done| | | | |]); js_run;
    by rewrite lookup_insert_eq.
Qed.

Lemma successful_mutation_leaves_no_message_witness :
  let created := {| status := 201; data := JObj [("id", JStr "abc123")] |} in
  message (view (resume CreateEvent (Fulfilled created) mounted).2) = "".
Proof.
  intros created.
  apply (successful_mutation_leaves_no_message CreateEvent created mounted).
  right; right. split; [reflexivity|discriminate].
Defined.

(** X8. The loading flag is no count of the requests in flight.  With
    two operations invoked one after the other, the settlement of the
    first, whatever its outcome, turns the flag off although the second
    is still awaited. *)
Theorem first_settlement_turns_loading_off :
  ∀ (c1 c2 : Call) (o : Settled) (w : World),
    let w' := run [Invoke c1; Invoke c2; Settles (next_id w) o] w in
    loading (view w') = false
    ∧ inflight w' !! S (next_id w) = Some (handler_of c2).
Proof.
  intros c1 c2 o w. unfold run; cbn [fold_left step].
  assert (Hfirst :
    inflight (invoke c2 (invoke c1 w).2).2 !! next_id w
    = Some (handler_of c1)).
  { destruct c1, c2; js_run;
      rewrite lookup_insert_ne by lia; by rewrite lookup_insert_eq. }
  rewrite (settle_in_flight _ _ _ _ Hfirst).
  destruct c1, c2; cbn [handler_of]; settled_cases o; js_run; split;
    try reflexivity;
    rewrite ?(lookup_insert_ne _ (S (S _))) by lia;
    rewrite lookup_delete_ne by lia; by rewrite lookup_insert_eq.
Qed.

(** X9. Responses that arrive out of order are applied in the order of
    arrival.  Two fetches are sent one after the other; when the second
    is fulfilled first and the first last, the list on display is the
    data of the first, the older request. *)
Theorem late_response_of_an_older_fetch_wins :
  ∀ (older newer : Response) (w : World),
    let n := next_id w in
    let w' := run [Invoke CallFetchEvents; Invoke CallFetchEvents;
                   Settles (S n) (Fulfilled newer);
                   Settles n (Fulfilled older)] w in
    events (view w') = data older
    ∧ dispatched (since w w')
      = [(n, fetchEvents_request); (S n, fetchEvents_request)].
Proof.
  intros [st1 d1] [st2 d2] w. unfold run; cbn [fold_left step].
  js_run.
  rewrite (settle_in_flight (S _) FetchEvents) by apply lookup_insert_eq.
  destruct d2; js_run.
  all: rewrite (settle_in_flight _ FetchEvents)
         by (cbn [inflight]; rewrite lookup_delete_ne by lia;
             rewrite lookup_insert_ne by lia; apply lookup_insert_eq).
  all: destruct d1; js_run; js_trace; by repeat split.
Qed.

(** ** The text of a message *)

(** X10. An error that brings no message from the server is shown with
    its own message, by every handler: when it carries no response at
    all, as a transport failure does, and when the body of its response
    is [null], is no object, or is an object without a [message]
    field. *)
Theorem error_without_server_message_shows_its_own :
  ∀ (h : Handler) (error : JsError) (w : World),
    opt_member (response_data error) K_message = None →
    surfaced h (Rejected error) w = "❌ Error: " +:+ error_message error
    ∧ (error_response error = None → response_data error = None).
Proof.
  intros h error w Hnone. split.
  - destruct h; js_run; try reflexivity;
      unfold server_message_or_own; by rewrite Hnone.
  - unfold response_data. by intros ->.
Qed.

Lemma error_without_server_message_shows_its_own_witness :
  surfaced DeleteEvent
    (Rejected {| error_message := "Network Error"; error_response := None |})
    mounted
  = "❌ Error: Network Error".
Proof.
  apply (error_without_server_message_shows_its_own DeleteEvent
           {| error_message := "Network Error"; error_response := None |}
           mounted).
  reflexivity.
Defined.

Lemma append_empty s : s +:+ "" = s.
Proof.
  induction s as [|c s IH]; [done|].
  change (String c (s +:+ "") = String c s). by rewrite IH.
Qed.

Lemma to_string_list_of_strings (texts : list string) :
  json_to_string (JArr (JStr <$> texts)) = String.concat "," texts.
Proof.
  induction texts as [|text rest IH]; [reflexivity|].
  destruct rest as [|next rest].
  - change (text +:+ "" = text). apply append_empty.
  - change (json_to_string (JArr (JStr <$> text :: next :: rest)))
      with (text +:+ "," +:+ json_to_string (JArr (JStr <$> next :: rest))).
    by rewrite IH.
Qed.

(** X11. A server message that is a list of strings, as a validation
    failure sends it, is shown as those strings joined by commas; this
    holds for the five handlers that read the body of the response. *)
Theorem list_of_server_messages_is_shown_comma_joined :
  ∀ (h : Handler) (texts : list string) (error : JsError) (w : World),
    h ≠ FetchEvents →
    opt_member (response_data error) K_message = Some (JArr (JStr <$> texts)) →
    surfaced h (Rejected error) w = "❌ Error: " +:+ String.concat "," texts.
Proof.
  intros h texts error w Hh Hlist.
  rewrite <- to_string_list_of_strings.
  destruct h; try done; js_run; unfold server_message_or_own;
    by rewrite Hlist.
Qed.

Lemma list_of_server_messages_is_shown_comma_joined_witness :
  surfaced CreateEvent
    (Rejected
       {| error_message := "Request failed with status code 400";
          error_response :=
            Some {| status := 400;
                    data := JObj [("message",
                                   JArr [JStr "title must be a string";
                                         JStr "price must be a number"])] |} |})
    mounted
  = "❌ Error: title must be a string,price must be a number".
Proof.
  apply (list_of_server_messages_is_shown_comma_joined CreateEvent
           ["title must be a string"; "price must be a number"]).
  - discriminate.
  - reflexivity.
Defined.

(** X12. What [fetchWithAuth] and [submitOrder] show for a fulfilled
    request is read off the body without a check.  On a [null] body the
    read throws and the handler shows the [TypeError], although the
    request succeeded.  Otherwise the text ends in the [email],
    respectively [orderId], of the body: the string itself when the
    field holds a string, its decimal digits when it holds an integer up
    to [Number.MAX_SAFE_INTEGER] in absolute value, and [undefined] when
    the body has no such field or is no object. *)
Theorem success_text_is_read_off_the_body_unchecked :
  ∀ (st : Z) (body : JSON) (w : World),
    let user := surfaced FetchWithAuth
                  (Fulfilled {| status := st; data := body |}) w in
    let order := surfaced SubmitOrder
                   (Fulfilled {| status := st; data := body |}) w in
    (body = JNull →
       user = "❌ Error: Cannot read properties of null (reading 'email')"
       ∧ order
         = "❌ Error: Cannot read properties of null (reading 'orderId')")
    ∧ (∀ s, get body K_email = Some (JStr s) →
            user = "✅ User data fetched: " +:+ s)
    ∧ (∀ s, get body K_orderId = Some (JStr s) →
            order = "✅ Order created: " +:+ s)
    ∧ (∀ z, get body K_orderId = Some (JNum z) →
            (Z.abs z ≤ MAX_SAFE_INTEGER)%Z →
            order = "✅ Order created: " +:+ pretty z)
    ∧ (body ≠ JNull → get body K_email = None →
       user = "✅ User data fetched: undefined")
    ∧ (body ≠ JNull → get body K_orderId = None →
       order = "✅ Order created: undefined").
Proof.
  intros st body w.
  destruct body; js_run; repeat split; try done.
  all: try (intros ? Hfield; by rewrite Hfield).
  all: try (intros ? Hfield _; by rewrite Hfield).
  all: intros _ Hfield; by rewrite Hfield.
Qed.

Lemma success_text_is_read_off_the_body_unchecked_witness :
  surfaced FetchWithAuth
    (Fulfilled {| status := 200; data := JObj [("name", JStr "Ann")] |})
    mounted
  = "✅ User data fetched: undefined"
  ∧ surfaced SubmitOrder
      (Fulfilled {| status := 201; data := JObj [("orderId", JNum 42)] |})
      mounted
    = "✅ Order created: 42".
Proof.
  split.
  - apply (success_text_is_read_off_the_body_unchecked 200
             (JObj [("name", JStr "Ann")]) mounted).
    + discriminate.
    + reflexivity.
  - destruct (success_text_is_read_off_the_body_unchecked 201
                (JObj [("orderId", JNum 42)]) mounted)
      as (_ & _ & _ & Hnumber & _).
    apply (Hnumber 42%Z); [reflexivity|]. unfold MAX_SAFE_INTEGER. lia.
Defined.

(** * The screen of [EventListExample] *)

Ltac screen_run :=
  unfold EventListExample.render, EventListExample.error_shown in *;
  cbn [EventListExample.useEffect_settled
       EventListExample.on_then EventListExample.on_catch
       EventListExample.setLoading EventListExample.setEvents
       EventListExample.setError
       EventListExample.loading EventListExample.error
       EventListExample.events data error_message] in *.

Lemma event_card_not_null event :
  event ≠ JNull →
  EventListExample.card event = inr (EventListExample.card_of event).
Proof. by destruct event. Qed.

Lemma event_cards (items : list JSON) :
  JNull ∉ items →
  map_items EventListExample.card items
  = inr (EventListExample.card_of <$> items).
Proof.
  induction items as [|event rest IH]; [done|].
  intros Hnull. apply not_elem_of_cons in Hnull as [Hevent Hrest].
  cbn [map_items]. rewrite event_card_not_null by done. cbn [and_then].
  by rewrite IH.
Qed.

(** X13. When the fetch of [EventListExample] is rejected, the screen is
    the error screen with the message of the error, unless that message
    is the empty string: then [if (error)] does not fire and the screen
    is the list, empty, with its notice that no events were found. *)
Theorem event_list_shows_the_error_unless_its_message_is_empty :
  ∀ (err : JsError) (s : EventListExample.State),
    (error_message err ≠ "" →
     EventListExample.render
       (EventListExample.useEffect_settled (Rejected err) s)
     = inr (EventListExample.Failed (error_message err)))
    ∧ (error_message err = "" →
       EventListExample.render
         (EventListExample.useEffect_settled (Rejected err)
            EventListExample.useState_initial)
       = inr (EventListExample.Listing [] true)).
Proof.
  intros [text response] [evs busy failure]. cbn [error_message]. split.
  - intros Htext. by destruct text.
  - by intros ->.
Qed.

Lemma event_list_shows_the_error_unless_its_message_is_empty_witness :
  EventListExample.render
    (EventListExample.useEffect_settled
       (Rejected {| error_message := "Network Error"; error_response := None |})
       EventListExample.useState_initial)
  = inr (EventListExample.Failed "Network Error").
Proof.
  apply (event_list_shows_the_error_unless_its_message_is_empty
           {| error_message := "Network Error"; error_response := None |}
           EventListExample.useState_initial).
  discriminate.
Defined.

(** X14. When the fetch of [EventListExample] is fulfilled and no error
    is on display, an array of events none of which is [null] is shown
    card by card, in the order of the response, with the notice of an
    empty list exactly when the array is empty; for any body that is no
    array the component function throws. *)
Theorem event_list_shows_the_fetched_array_card_by_card :
  ∀ (st : Z) (s : EventListExample.State),
    EventListExample.error_shown s = None →
    (∀ items : list JSON,
       JNull ∉ items →
       EventListExample.render
         (EventListExample.useEffect_settled
            (Fulfilled {| status := st; data := JArr items |}) s)
       = inr (EventListExample.Listing
                (EventListExample.card_of <$> items)
                (match items with [] => true | _ => false end)))
    ∧ (∀ body : JSON,
         (∀ items, body ≠ JArr items) →
         EventListExample.render
           (EventListExample.useEffect_settled
              (Fulfilled {| status := st; data := body |}) s)
         = inl (match body with
                | JNull => TypeError_reading "map"
                | _ => TypeError_not_a_function "events.map"
                end)).
Proof.
  intros st [evs busy failure] Herror. screen_run. rewrite Herror. split.
  - intros items Hnull. cbn [array_map].
    rewrite event_cards by done. cbn [and_then get].
    by rewrite zero_length.
  - intros body Harray.
    by destruct body as [| | | |items|]; try (by destruct (Harray items)).
Qed.

Lemma event_list_shows_the_fetched_array_card_by_card_witness :
  EventListExample.render
    (EventListExample.useEffect_settled
       (Fulfilled
          {| status := 200;
             data := JArr [JObj [("id", JNum 1); ("price", JNum 1000)]] |})
       EventListExample.useState_initial)
  = inr (EventListExample.Listing
           [ {| EventListExample.key := Some (JNum 1);
                EventListExample.title := None;
                EventListExample.description := None;
                EventListExample.location := None;
                EventListExample.date := None;
                EventListExample.price := Some (JNum 1000) |} ]
           false).
Proof.
  apply (proj1 (event_list_shows_the_fetched_array_card_by_card 200
                  EventListExample.useState_initial eq_refl)
           [JObj [("id", JNum 1); ("price", JNum 1000)]]).
  intros H. repeat (apply elem_of_cons in H as [H|H]; [discriminate H|]).
  by apply elem_of_nil in H.
Defined.

(** X15. Once its request has settled, [EventListExample] never shows
    the loading screen again, from whatever state; and an error on
    display is never taken down: no path resets it, so a response that
    is fulfilled afterwards still ends on the error screen. *)
Theorem event_list_never_loads_again_and_keeps_its_error :
  ∀ (o : Settled) (s : EventListExample.State),
    EventListExample.render (EventListExample.useEffect_settled o s)
    ≠ inr EventListExample.Loading
    ∧ (∀ text response,
         EventListExample.error_shown s = Some text →
         EventListExample.render
           (EventListExample.useEffect_settled (Fulfilled response) s)
         = inr (EventListExample.Failed text)).
Proof.
  intros o [evs busy failure]. split.
  - destruct o as [[st d]|[text response]]; screen_run.
    + destruct failure as [[|c text]|]; try done;
        by destruct (array_map _ _ _).
    + destruct text; [by destruct (array_map _ _ _)|done].
  - intros text [st d] Herror. screen_run. by rewrite Herror.
Qed.

Lemma event_list_never_loads_again_and_keeps_its_error_witness :
  let failed := EventListExample.useEffect_settled
                  (Rejected {| error_message := "timeout";
                               error_response := None |})
                  EventListExample.useState_initial in
  EventListExample.render
    (EventListExample.useEffect_settled
       (Fulfilled {| status := 200; data := JArr [] |}) failed)
  = inr (EventListExample.Failed "timeout").
Proof.
  intros failed.
  apply (event_list_never_loads_again_and_keeps_its_error
           (Fulfilled {| status := 200; data := JArr [] |}) failed).
  reflexivity.
Defined.

(** * A failure that is fatal to the page *)

(** A rejected request never breaks the page: the events list is as it
    was, so a page that could be shown before can be shown after, with
    the same cards and its buttons enabled. *)
Lemma rejection_keeps_the_page h error w (items : list JSON) :
  events (view w) = JArr items →
  JNull ∉ items →
  ∃ page,
    render (view (resume h (Rejected error) w).2) = inr page
    ∧ cards page = card_of false <$> items
    ∧ buttons_disabled page = false.
Proof.
  intros Hevs Hnull. destruct h; js_run; subst; unfold render;
    cbn [events loading message array_map];
    rewrite map_items_cards by done; cbn [and_then]; by eexists.
Qed.

(** C4, at the input where the code departs from it.  [GET /events] is
    fulfilled with the body [null].  [fetchEvents] calls
    [setEvents(null)] and then reads [response.data.length], which
    throws; the [catch] block shows the [TypeError], so the operation
    ends as a failure, caught and displayed.  The events state is [null]
    from then on, and the component function throws at [events.map]:
    right away, after any operation invoked next, and after the
    rejection of any request.  The failure is fatal to the page, and no
    operation can be reached from it any more. *)
Theorem fetch_fulfilled_with_null_is_fatal_to_the_page :
  ∀ (st : Z) (w : World),
    let failed := fetchEvents_resume
                    (Fulfilled {| status := st; data := JNull |}) w in
    failed.1 = Normal tt
    ∧ emitted (fetchEvents_resume
                 (Fulfilled {| status := st; data := JNull |})) w
      = [SetEvents JNull;
         ConsoleError "Error fetching events:" (TypeError_null K_length);
         SetMessage
           "❌ Error: Cannot read properties of null (reading 'length')";
         SetLoading false]
    ∧ events (view failed.2) = JNull
    ∧ render (view failed.2) = inl (TypeError_reading "map")
    ∧ (∀ c, render (view (invoke c failed.2).2)
            = inl (TypeError_reading "map"))
    ∧ (∀ h error,
         render (view (resume h (Rejected error) failed.2).2)
         = inl (TypeError_reading "map")).
Proof.
  intros st w. split; [reflexivity|].
  split; [js_run; js_trace; reflexivity|].
  split; [by js_run|]. split; [by js_run|]. split.
  - intros c. destruct c; by js_run.
  - intros h error. destruct h; by js_run.
Qed.
